(** * storymock: the fluent constraint builders ([Construct], [RangeConstruct],
    [EvenOddConstruct]) of [src/faker], embedded with an explicit store.

    A TypeScript [number] is an IEEE 754 binary64 value, so it is a primitive
    [float] here and [<] is [PrimFloat.ltb] (false as soon as one side is
    NaN).  An optional property ([Partial<...>], tested with [!= null]) is an
    [option].  The constraint objects that the builders mutate live in a
    store indexed by references; a builder only reaches them through the
    setter it was constructed with. *)

From Stdlib Require Import Floats String.
From stdpp Require Import gmap.

Local Open Scope string_scope.

(** ** Values, errors and the store *)

Definition number : Type := float.

(** [new Error(`text${n}`)]: the literal part of the template and the number
    interpolated after it. *)
Record Error : Type := Error_new { text : string; cited : number }.

(** Object references. *)
Abbreviation loc := positive.

(** ** The monad of a method body

    A method runs on the store of constraint objects ([C] is the shape of
    one object), may [throw], and leaves the store as it is at the point of
    the throw: nothing is rolled back. *)

Definition M (C A : Type) : Type := gmap loc C → (Error + A) * gmap loc C.

Global Instance M_ret {C} : MRet (M C) := λ A (a : A) σ, (inr a, σ).

Global Instance M_bind {C} : MBind (M C) := λ A B (k : A → M C B) (m : M C A) σ,
  match m σ with
  | (inl e, σ') => (inl e, σ')
  | (inr a, σ') => k a σ'
  end.

Definition throw {C A} (e : Error) : M C A := λ σ, (inl e, σ).

(** ** [src/faker/type.ts]: [Construct] *)

(** [(constraints: Partial<Constraints>) => void]: a procedure that receives
    a reference to a constraint object and mutates the store. *)
Definition Callback (C : Type) : Type := loc → gmap loc C → gmap loc C.

(** [(callback) => void]: the caller-supplied setter.  It may do anything
    to the store with the callback it is given; a setter that itself throws
    is not represented. *)
Definition Setter (C : Type) : Type := Callback C → gmap loc C → gmap loc C.

(** [constraints.p = v] inside a callback: a property assignment on the
    object behind the reference, [f] being the record update. *)
Definition assign {C} (f : C → C) : Callback C := λ constraints σ, alter f constraints σ.

Record Construct (C R : Type) : Type := Build_Construct {
  setter : Setter C;
  rules : R
}.
Arguments Build_Construct {C R} _ _.
Arguments setter {C R} _.
Arguments rules {C R} _.

(** The constructor: [this.setter = setter; this.rules = rules ?? {}]. *)
Definition Construct_new {C R} `{Empty R} (setter : Setter C) (rules : option R)
  : Construct C R :=
  Build_Construct setter (default ∅ rules).

(** [this.setter(callback)] as a statement of a method body. *)
Definition call_setter {C R} (this : Construct C R) (callback : Callback C) : M C unit :=
  λ σ, (inr tt, setter this callback σ).

(** Modelled from the spec: the setter a caller supplies so that the
    callback is applied to one accumulating constraint map (4.1: the builder
    calls "a caller-supplied setter to merge one constraint into an
    accumulating constraint map"); no file of [src/] constructs a setter.
    [linked l] is [(callback) => callback(target)] for the object [target]
    stored at [l]. *)
Definition linked {C} (l : loc) : Setter C := λ callback σ, callback l σ.

(** What a holder of the target object reads. *)
Definition constraints_at {C} (l : loc) (σ : gmap loc C) : option C := σ !! l.

(** ** [src/faker/constructs/range.ts] *)

(** [Partial<{ min: number; max: number }>], the shape of both the
    constraints and the rules of a [RangeConstruct]. *)
Module Range.
Record t : Type := mk { min : option number; max : option number }.

Global Instance empty : Empty t := mk None None.

Definition set_min (v : number) (o : t) : t := mk (Some v) (max o).
Definition set_max (v : number) (o : t) : t := mk (min o) (Some v).
End Range.

Module RangeConstruct.
Definition t : Type := Construct Range.t Range.t.

Definition min_text : string := "Minimum value must be greater than or equal to ".
Definition max_text : string := "Maximum value must be less than or equal to ".

Definition min (this : t) (min : number) : M Range.t t :=
  match Range.min (rules this) with
  | Some rmin => if (min <? rmin)%float then throw (Error_new min_text rmin) else mret tt
  | None => mret tt
  end ;;
  call_setter this (assign (Range.set_min min)) ;;
  mret this.

(** [max > this.rules.max] is [this.rules.max < max]. *)
Definition max (this : t) (max : number) : M Range.t t :=
  match Range.max (rules this) with
  | Some rmax => if (rmax <? max)%float then throw (Error_new max_text rmax) else mret tt
  | None => mret tt
  end ;;
  call_setter this (assign (Range.set_max max)) ;;
  mret this.

Definition between (this : t) (min' max' : number) : M Range.t t :=
  min this min' ;;
  max this max' ;;
  mret this.

(** The chain [this.min(a).max(b)]: [max] is called on what [min]
    returned.  This is the sequential composition that the specification
    compares [between] with. *)
Definition min_then_max (this : t) (a b : number) : M Range.t t :=
  this' ← min this a; max this' b.
End RangeConstruct.

(** ** [src/faker/constructs/even-odd.ts] *)

(** [Partial<{ even: boolean }>]. *)
Module EvenOdd.
Record t : Type := mk { even : option bool }.

Global Instance empty : Empty t := mk None.

Definition set_even (b : bool) (o : t) : t := mk (Some b).
End EvenOdd.

(** The default [Rules = {}]: an object type without properties. *)
Global Instance unit_rules_empty : Empty unit := tt.

Module EvenOddConstruct.
Definition t : Type := Construct EvenOdd.t unit.

Definition even (this : t) : M EvenOdd.t t :=
  call_setter this (assign (EvenOdd.set_even true)) ;;
  mret this.

Definition odd (this : t) : M EvenOdd.t t :=
  call_setter this (assign (EvenOdd.set_even false)) ;;
  mret this.

(** One link of a fluent chain. *)
Inductive call : Type := Even | Odd.

Definition apply (this : t) (c : call) : M EvenOdd.t t :=
  match c with
  | Even => even this
  | Odd => odd this
  end.

Definition setting (c : call) : bool :=
  match c with
  | Even => true
  | Odd => false
  end.

(** [this.c1().c2()...]: every call is made on what the previous one
    returned. *)
Fixpoint chain (this : t) (cs : list call) : M EvenOdd.t t :=
  match cs with
  | [] => mret this
  | c :: cs' => this' ← apply this c; chain this' cs'
  end.
End EvenOddConstruct.

(** ** The guards of [min] and [max], as booleans

    [this.rules.min != null && min < this.rules.min] and
    [this.rules.max != null && max > this.rules.max]. *)

Definition below_min (r : Range.t) (v : number) : bool :=
  match Range.min r with
  | Some rmin => (v <? rmin)%float
  | None => false
  end.

Definition above_max (r : Range.t) (v : number) : bool :=
  match Range.max r with
  | Some rmax => (rmax <? v)%float
  | None => false
  end.

(** ** Fluent chains of range calls

    [this.c1(...).c2(...)...] where every link is [min], [max] or
    [between]; every call is made on what the previous one returned. *)

Module RangeChain.
Inductive call : Type :=
  | Min (v : number)
  | Max (v : number)
  | Between (a b : number).

Definition apply (this : RangeConstruct.t) (c : call) : M Range.t RangeConstruct.t :=
  match c with
  | Min v => RangeConstruct.min this v
  | Max v => RangeConstruct.max this v
  | Between a b => RangeConstruct.between this a b
  end.

Fixpoint chain (this : RangeConstruct.t) (cs : list call) : M Range.t RangeConstruct.t :=
  match cs with
  | [] => mret this
  | c :: cs' => this' ← apply this c; chain this' cs'
  end.

(** No guard of the call fires under the rules [r]. *)
Definition accepted (r : Range.t) (c : call) : bool :=
  match c with
  | Min v => negb (below_min r v)
  | Max v => negb (above_max r v)
  | Between a b => negb (below_min r a) && negb (above_max r b)
  end.

(** The property assignments of the call's callbacks, in order. *)
Definition update (c : call) (o : Range.t) : Range.t :=
  match c with
  | Min v => Range.set_min v o
  | Max v => Range.set_max v o
  | Between a b => Range.set_max b (Range.set_min a o)
  end.

(** The value a call assigns to [min] (to [max]), if it assigns one. *)
Definition sets_min (c : call) : option number :=
  match c with
  | Min v | Between v _ => Some v
  | Max _ => None
  end.

Definition sets_max (c : call) : option number :=
  match c with
  | Max v | Between _ v => Some v
  | Min _ => None
  end.
End RangeChain.

(** The chain [this.max(b).min(a)]. *)
Definition max_then_min (this : RangeConstruct.t) (a b : number)
  : M Range.t RangeConstruct.t :=
  this' ← RangeConstruct.max this b; RangeConstruct.min this' a.

(** ** [src/faker/type.ts]: [Module]

    The abstract class keeps a reference to its constraint object; [exec]
    is abstract and has no body.  The object literal [{}] of the constructor
    is a new object of the store. *)

Module Module_.
Record t : Type := Build { constraints : loc }.

(** [this.constraints = constraints ?? {}]. *)
Definition new {C} `{Empty C} (constraints : option loc) : M C t :=
  match constraints with
  | Some o => mret (Build o)
  | None => λ σ, let o := fresh (dom σ) in (inr (Build o), <[o := ∅]> σ)
  end.
End Module_.

(** ** [enum Month]

    A numeric enum: the members are numbered from 0 in the order of their
    declaration, and the enum object maps every key to its number and
    every number back to its key. *)

Inductive Month : Type :=
  | January | February | March | April | May | June
  | July | August | September | October | November | December.

Definition Month_members : list Month :=
  [January; February; March; April; May; June;
   July; August; September; October; November; December].

Definition Month_key (m : Month) : string :=
  match m with
  | January => "January" | February => "February" | March => "March"
  | April => "April" | May => "May" | June => "June"
  | July => "July" | August => "August" | September => "September"
  | October => "October" | November => "November" | December => "December"
  end.

(** The entries [key: number] of the enum object. *)
Definition Month_entries : list (string * nat) :=
  imap (λ i m, (Month_key m, i)) Month_members.

(** The two halves of the enum object, and the property reads [Month[key]]
    and [Month[n]] (the reverse mapping). *)
Definition Month_forward : gmap string nat := list_to_map Month_entries.

Definition Month_reverse : gmap nat string :=
  list_to_map ((λ e, (snd e, fst e)) <$> Month_entries).

Definition Month_value (key : string) : option nat := Month_forward !! key.

Definition Month_name (n : nat) : option string := Month_reverse !! n.

(** [Lowercase<...>] on one character and on a key. *)
Definition lowercase_ascii (a : Ascii.ascii) : Ascii.ascii :=
  let n := Ascii.nat_of_ascii a in
  if (65 <=? n)%nat && (n <=? 90)%nat then Ascii.ascii_of_nat (n + 32) else a.

Fixpoint Lowercase (s : string) : string :=
  match s with
  | EmptyString => EmptyString
  | String a s' => String (lowercase_ascii a) (Lowercase s')
  end.

(** ** What a chained call does to the store

    [updates_in_place l this f m]: whenever the call [m] made on [this]
    returns, it returns [this] itself, the object at [l] has been updated by
    [f] where it stands, and no other object has changed. *)

Definition updates_in_place {C R} (l : loc) (this : Construct C R) (f : C → C)
    (m : M C (Construct C R)) : Prop :=
  ∀ σ this' σ', m σ = (inr this', σ') →
    this' = this
    ∧ constraints_at l σ' = f <$> constraints_at l σ
    ∧ ∀ l', l' ≠ l → constraints_at l' σ' = constraints_at l' σ.

(** * Properties *)

(** ** The comparison of numbers *)

(** [v < v] is false for every number, NaN and the infinities included. *)
Lemma ltb_irrefl (v : number) : (v <? v)%float = false.
Proof.
  rewrite ltb_spec. unfold SFltb.
  destruct (Prim2SF v) as [s|s| |s m e]; simpl; try reflexivity.
  - destruct s; reflexivity.
  - change (PosDef.Pos.compare_cont Eq m m) with (Pos.compare m m).
    destruct s; rewrite Z.compare_refl, Pos.compare_refl; reflexivity.
Qed.

(** ** Running the methods *)

Section running.
Context {C : Type}.
Implicit Types (σ : gmap loc C) (f : C → C).

Lemma alter_present f l σ c : σ !! l = Some c → alter f l σ = <[l := f c]> σ.
Proof.
  intros Hl. apply map_eq. intros j. destruct (decide (l = j)) as [->|Hne].
  - rewrite lookup_alter_eq, lookup_insert_eq, Hl. reflexivity.
  - rewrite lookup_alter_ne, lookup_insert_ne by assumption. reflexivity.
Qed.
End running.

Lemma min_unfold (this : RangeConstruct.t) v σ :
  RangeConstruct.min this v σ =
  match Range.min (rules this) with
  | Some rmin =>
      if (v <? rmin)%float then (inl (Error_new RangeConstruct.min_text rmin), σ)
      else (inr this, setter this (assign (Range.set_min v)) σ)
  | None => (inr this, setter this (assign (Range.set_min v)) σ)
  end.
Proof.
  unfold RangeConstruct.min, mbind, M_bind.
  destruct (Range.min (rules this)) as [rmin|]; [destruct (v <? rmin)%float|]; reflexivity.
Qed.

Lemma max_unfold (this : RangeConstruct.t) v σ :
  RangeConstruct.max this v σ =
  match Range.max (rules this) with
  | Some rmax =>
      if (rmax <? v)%float then (inl (Error_new RangeConstruct.max_text rmax), σ)
      else (inr this, setter this (assign (Range.set_max v)) σ)
  | None => (inr this, setter this (assign (Range.set_max v)) σ)
  end.
Proof.
  unfold RangeConstruct.max, mbind, M_bind.
  destruct (Range.max (rules this)) as [rmax|]; [destruct (rmax <? v)%float|]; reflexivity.
Qed.

Lemma min_passes (this : RangeConstruct.t) v σ :
  below_min (rules this) v = false →
  RangeConstruct.min this v σ = (inr this, setter this (assign (Range.set_min v)) σ).
Proof.
  unfold below_min. intros Hg. rewrite min_unfold.
  destruct (Range.min (rules this)); [rewrite Hg|]; reflexivity.
Qed.

Lemma max_passes (this : RangeConstruct.t) v σ :
  above_max (rules this) v = false →
  RangeConstruct.max this v σ = (inr this, setter this (assign (Range.set_max v)) σ).
Proof.
  unfold above_max. intros Hg. rewrite max_unfold.
  destruct (Range.max (rules this)); [rewrite Hg|]; reflexivity.
Qed.

Lemma min_throws (this : RangeConstruct.t) v σ :
  below_min (rules this) v = true →
  ∃ rmin, Range.min (rules this) = Some rmin ∧
    RangeConstruct.min this v σ = (inl (Error_new RangeConstruct.min_text rmin), σ).
Proof.
  unfold below_min. intros Hg. rewrite min_unfold.
  destruct (Range.min (rules this)) as [rmin|]; [|discriminate].
  exists rmin. rewrite Hg. split; reflexivity.
Qed.

Lemma max_throws (this : RangeConstruct.t) v σ :
  above_max (rules this) v = true →
  ∃ rmax, Range.max (rules this) = Some rmax ∧
    RangeConstruct.max this v σ = (inl (Error_new RangeConstruct.max_text rmax), σ).
Proof.
  unfold above_max. intros Hg. rewrite max_unfold.
  destruct (Range.max (rules this)) as [rmax|]; [|discriminate].
  exists rmax. rewrite Hg. split; reflexivity.
Qed.

Lemma between_unfold (this : RangeConstruct.t) a b σ :
  RangeConstruct.between this a b σ =
  match RangeConstruct.min this a σ with
  | (inl e, σ1) => (inl e, σ1)
  | (inr _, σ1) =>
      match RangeConstruct.max this b σ1 with
      | (inl e, σ2) => (inl e, σ2)
      | (inr _, σ2) => (inr this, σ2)
      end
  end.
Proof.
  unfold RangeConstruct.between, mbind, M_bind.
  destruct (RangeConstruct.min this a σ) as [[e|r] σ1]; [reflexivity|].
  destruct (RangeConstruct.max this b σ1) as [[e|r'] σ2]; reflexivity.
Qed.

(** With the linked setter, a passing [min] or [max] is an update of the
    target object. *)
Lemma min_linked (this : RangeConstruct.t) l c v (σ : gmap loc Range.t) :
  setter this = linked l → σ !! l = Some c →
  below_min (rules this) v = false →
  RangeConstruct.min this v σ = (inr this, <[l := Range.set_min v c]> σ).
Proof.
  intros Hs Hl Hg. rewrite (min_passes _ _ _ Hg), Hs. unfold linked, assign.
  rewrite (alter_present _ _ _ _ Hl). reflexivity.
Qed.

Lemma max_linked (this : RangeConstruct.t) l c v (σ : gmap loc Range.t) :
  setter this = linked l → σ !! l = Some c →
  above_max (rules this) v = false →
  RangeConstruct.max this v σ = (inr this, <[l := Range.set_max v c]> σ).
Proof.
  intros Hs Hl Hg. rewrite (max_passes _ _ _ Hg), Hs. unfold linked, assign.
  rewrite (alter_present _ _ _ _ Hl). reflexivity.
Qed.

Lemma min_then_max_unfold (this : RangeConstruct.t) a b σ :
  RangeConstruct.min_then_max this a b σ =
  match RangeConstruct.min this a σ with
  | (inl e, σ1) => (inl e, σ1)
  | (inr this', σ1) => RangeConstruct.max this' b σ1
  end.
Proof. reflexivity. Qed.

(** ** The range builder under the rule [{min: 10, max: 50}] *)

(** C1: for a RangeConstruct with the fixed rule {min: 10, max: 50} whose
    accumulated constraint map starts empty, [.min(5)] throws (the message
    cites the bound 10) and [.min(20).max(40)] succeeds, returns the builder
    and leaves the constraint map equal to {min: 20, max: 40}. *)
Theorem range_10_50_example (l : loc) (σ : gmap loc Range.t) :
  σ !! l = Some ∅ →
  let this : RangeConstruct.t :=
    Construct_new (linked l) (Some (Range.mk (Some 10%float) (Some 50%float))) in
  RangeConstruct.min this 5%float σ
    = (inl (Error_new RangeConstruct.min_text 10%float), σ)
  ∧ RangeConstruct.min_then_max this 20%float 40%float σ
    = (inr this, <[l := Range.mk (Some 20%float) (Some 40%float)]> σ).
Proof.
  intros Hl this. split.
  - rewrite min_unfold. reflexivity.
  - rewrite min_then_max_unfold.
    rewrite (min_linked this l ∅ 20%float σ eq_refl Hl eq_refl).
    rewrite (max_linked this l (Range.set_min 20%float ∅) 40%float); try reflexivity.
    + rewrite insert_insert_eq. reflexivity.
    + apply lookup_insert_eq.
Qed.

Lemma range_10_50_example_witness :
  ({[1%positive := ∅]} : gmap loc Range.t) !! 1%positive = Some ∅
  ∧ RangeConstruct.min_then_max
      (Construct_new (linked 1%positive) (Some (Range.mk (Some 10%float) (Some 50%float))))
      20%float 40%float {[1%positive := ∅]}
    = (inr (Construct_new (linked 1%positive) (Some (Range.mk (Some 10%float) (Some 50%float)))),
       <[1%positive := Range.mk (Some 20%float) (Some 40%float)]> {[1%positive := ∅]}).
Proof.
  split; [reflexivity|].
  apply (range_10_50_example 1%positive {[1%positive := ∅]}). reflexivity.
Defined.

(** ** Which bound each method checks *)

(** C2, as stated, fails: under a rule that fixes only [max: 5], the value
    10 is above the fixed bound, yet [.min(10)] does not throw; it merges
    [min: 10]. *)
Lemma min_ignores_rule_max :
  let this : RangeConstruct.t :=
    Construct_new (linked 1%positive) (Some (Range.mk None (Some 5%float))) in
  (5 <? 10)%float = true
  ∧ (¬ ∃ e, fst (RangeConstruct.min this 10%float {[1%positive := ∅]}) = inl e)
  ∧ RangeConstruct.min this 10%float {[1%positive := ∅]}
    = (inr this, {[1%positive := Range.mk (Some 10%float) None]}).
Proof.
  intros this. split; [reflexivity|]. split.
  - intros [e He]. discriminate He.
  - rewrite (min_linked this 1%positive ∅ 10%float {[1%positive := ∅]});
      reflexivity.
Qed.

(** C2, amended: [.min(v)] is checked against the fixed rule [min] only and
    [.max(v)] against the fixed rule [max] only.  [.min(v)] throws, citing
    the rule's [min] and leaving the constraint map as it was, exactly when
    that bound is set and [v] is below it; otherwise it merges [min: v] and
    returns the builder.  Likewise [.max(v)] with the rule's [max] and [v]
    above it. *)
Theorem min_max_check_own_bound (this : RangeConstruct.t) l c v (σ : gmap loc Range.t) :
  setter this = linked l → σ !! l = Some c →
  (if below_min (rules this) v
   then ∃ rmin, Range.min (rules this) = Some rmin ∧ (v <? rmin)%float = true ∧
          RangeConstruct.min this v σ = (inl (Error_new RangeConstruct.min_text rmin), σ)
   else RangeConstruct.min this v σ = (inr this, <[l := Range.set_min v c]> σ))
  ∧
  (if above_max (rules this) v
   then ∃ rmax, Range.max (rules this) = Some rmax ∧ (rmax <? v)%float = true ∧
          RangeConstruct.max this v σ = (inl (Error_new RangeConstruct.max_text rmax), σ)
   else RangeConstruct.max this v σ = (inr this, <[l := Range.set_max v c]> σ)).
Proof.
  intros Hs Hl. split.
  - destruct (below_min (rules this) v) eqn:Hg.
    + destruct (min_throws this v σ Hg) as (rmin & Hr & Hrun).
      exists rmin. unfold below_min in Hg. rewrite Hr in Hg. auto.
    + apply min_linked; assumption.
  - destruct (above_max (rules this) v) eqn:Hg.
    + destruct (max_throws this v σ Hg) as (rmax & Hr & Hrun).
      exists rmax. unfold above_max in Hg. rewrite Hr in Hg. auto.
    + apply max_linked; assumption.
Qed.

Lemma min_max_check_own_bound_witness :
  let this : RangeConstruct.t :=
    Construct_new (linked 1%positive) (Some (Range.mk (Some 10%float) (Some 50%float))) in
  let σ : gmap loc Range.t := {[1%positive := ∅]} in
  (∃ rmin, Range.min (rules this) = Some rmin ∧ (5 <? rmin)%float = true ∧
     RangeConstruct.min this 5%float σ = (inl (Error_new RangeConstruct.min_text rmin), σ))
  ∧ RangeConstruct.max this 5%float σ
    = (inr this, <[1%positive := Range.set_max 5%float ∅]> σ).
Proof.
  intros this σ.
  exact (min_max_check_own_bound this 1%positive ∅ 5%float σ eq_refl eq_refl).
Defined.

(** ** Chained calls and the shared constraint object *)

Lemma min_returns (this this' : RangeConstruct.t) v σ σ' :
  RangeConstruct.min this v σ = (inr this', σ') →
  this' = this ∧ σ' = setter this (assign (Range.set_min v)) σ.
Proof.
  rewrite min_unfold.
  destruct (Range.min (rules this)) as [rmin|]; [destruct (v <? rmin)%float|];
    intros [= <- <-]; auto.
Qed.

Lemma max_returns (this this' : RangeConstruct.t) v σ σ' :
  RangeConstruct.max this v σ = (inr this', σ') →
  this' = this ∧ σ' = setter this (assign (Range.set_max v)) σ.
Proof.
  rewrite max_unfold.
  destruct (Range.max (rules this)) as [rmax|]; [destruct (rmax <? v)%float|];
    intros [= <- <-]; auto.
Qed.

Lemma between_returns (this this' : RangeConstruct.t) a b σ σ' :
  RangeConstruct.between this a b σ = (inr this', σ') →
  this' = this
  ∧ σ' = setter this (assign (Range.set_max b)) (setter this (assign (Range.set_min a)) σ).
Proof.
  rewrite between_unfold.
  destruct (RangeConstruct.min this a σ) as [[e|r1] σ1] eqn:Hmin; [discriminate|].
  destruct (RangeConstruct.max this b σ1) as [[e|r2] σ2] eqn:Hmax; [discriminate|].
  intros [= <- <-].
  apply min_returns in Hmin as [_ ->]. apply max_returns in Hmax as [_ ->]. auto.
Qed.

Section in_place.
Context {C R : Type}.
Implicit Types (this : Construct C R) (σ : gmap loc C) (f g : C → C).

Lemma linked_assign this l f σ :
  setter this = linked l → setter this (assign f) σ = alter f l σ.
Proof. intros ->. reflexivity. Qed.

Lemma alter_in_place this l f (m : M C (Construct C R)) :
  (∀ σ this' σ', m σ = (inr this', σ') → this' = this ∧ σ' = alter f l σ) →
  updates_in_place l this f m.
Proof.
  intros Hm σ this' σ' Hrun. destruct (Hm _ _ _ Hrun) as [-> ->].
  split; [reflexivity|]. split.
  - apply lookup_alter_eq.
  - intros l' Hne. apply lookup_alter_ne. congruence.
Qed.

Lemma call_setter_in_place this l f :
  setter this = linked l →
  updates_in_place l this f (call_setter this (assign f) ;; mret this).
Proof.
  intros Hs. apply alter_in_place. intros σ this' σ' [= <- <-].
  split; [reflexivity|]. apply linked_assign, Hs.
Qed.
End in_place.

(** C3, as stated, fails: after [.min(20)] the call has returned the very
    builder it was made on, and what the original builder's constraint
    object holds is no longer what it held before the call. *)
Lemma chained_call_mutates_shared_state :
  let this : RangeConstruct.t := Construct_new (linked 1%positive) None in
  let σ : gmap loc Range.t := {[1%positive := ∅]} in
  ∃ σ', RangeConstruct.min this 20%float σ = (inr this, σ')
        ∧ constraints_at 1%positive σ = Some (Range.mk None None)
        ∧ constraints_at 1%positive σ' = Some (Range.mk (Some 20%float) None)
        ∧ constraints_at 1%positive σ' ≠ constraints_at 1%positive σ.
Proof.
  intros this σ. exists {[1%positive := Range.mk (Some 20%float) None]}.
  split; [|split; [|split]]; try reflexivity.
  intros H. discriminate H.
Qed.

(** C3, amended: a chained call returns the builder it was made on and
    updates the accumulated constraint object in place through the setter;
    whoever holds the original builder observes the constraints after the
    call.  Only that object changes: every other object of the store is
    left as it was.  This holds for [min], [max] and [between] of a
    RangeConstruct and for [even] and [odd] of an EvenOddConstruct. *)
Theorem chained_calls_update_in_place (l : loc)
    (r : RangeConstruct.t) (e : EvenOddConstruct.t) (a b : number) :
  setter r = linked l → setter e = linked l →
  updates_in_place l r (Range.set_min a) (RangeConstruct.min r a)
  ∧ updates_in_place l r (Range.set_max b) (RangeConstruct.max r b)
  ∧ updates_in_place l r (Range.set_max b ∘ Range.set_min a) (RangeConstruct.between r a b)
  ∧ updates_in_place l e (EvenOdd.set_even true) (EvenOddConstruct.even e)
  ∧ updates_in_place l e (EvenOdd.set_even false) (EvenOddConstruct.odd e).
Proof.
  intros Hr He. split; [|split; [|split; [|split]]].
  - apply alter_in_place. intros σ this' σ' Hrun.
    apply min_returns in Hrun as [-> ->]. rewrite (linked_assign r l) by assumption. auto.
  - apply alter_in_place. intros σ this' σ' Hrun.
    apply max_returns in Hrun as [-> ->]. rewrite (linked_assign r l) by assumption. auto.
  - apply alter_in_place. intros σ this' σ' Hrun.
    apply between_returns in Hrun as [-> ->].
    rewrite !(linked_assign r l) by assumption. rewrite alter_alter_eq. auto.
  - apply call_setter_in_place, He.
  - apply call_setter_in_place, He.
Qed.

Lemma chained_calls_update_in_place_witness :
  let r : RangeConstruct.t :=
    Construct_new (linked 1%positive) (Some (Range.mk (Some 10%float) (Some 50%float))) in
  let e : EvenOddConstruct.t := Construct_new (linked 1%positive) None in
  setter r = linked 1%positive ∧ setter e = linked 1%positive
  ∧ updates_in_place 1%positive r (Range.set_min 20%float) (RangeConstruct.min r 20%float)
  ∧ updates_in_place 1%positive e (EvenOdd.set_even true) (EvenOddConstruct.even e).
Proof.
  intros r e. split; [reflexivity|]. split; [reflexivity|].
  destruct (chained_calls_update_in_place 1%positive r e 20%float 40%float
              eq_refl eq_refl) as (Hmin & _ & _ & Heven & _).
  split; assumption.
Defined.

(** ** [between] against the chain [min] then [max] *)

(** C4: for every builder (whatever its setter and rules), every store and
    every pair (a, b), [.between(a, b)] and [.min(a).max(b)] give the same
    outcome: the same error or the same returned builder, and the same
    store. *)
Theorem between_is_min_then_max (this : RangeConstruct.t) (a b : number)
    (σ : gmap loc Range.t) :
  RangeConstruct.between this a b σ = RangeConstruct.min_then_max this a b σ.
Proof.
  rewrite between_unfold, min_then_max_unfold.
  destruct (RangeConstruct.min this a σ) as [[e|this1] σ1] eqn:Hmin; [reflexivity|].
  apply min_returns in Hmin as [-> _].
  destruct (RangeConstruct.max this b σ1) as [[e|this2] σ2] eqn:Hmax; [reflexivity|].
  apply max_returns in Hmax as [-> _]. reflexivity.
Qed.

(** C5, as stated, fails: under the rule [{min: 10, max: 50}] the call
    [.between(40, 20)] has its first argument above its second, yet it does
    not throw; it leaves [{min: 40, max: 20}]. *)
Lemma between_accepts_inverted_range :
  let this : RangeConstruct.t :=
    Construct_new (linked 1%positive) (Some (Range.mk (Some 10%float) (Some 50%float))) in
  (20 <? 40)%float = true
  ∧ (¬ ∃ e, fst (RangeConstruct.between this 40%float 20%float {[1%positive := ∅]}) = inl e)
  ∧ RangeConstruct.between this 40%float 20%float {[1%positive := ∅]}
    = (inr this, {[1%positive := Range.mk (Some 40%float) (Some 20%float)]}).
Proof.
  intros this.
  assert (Hrun : RangeConstruct.between this 40%float 20%float {[1%positive := ∅]}
                 = (inr this, {[1%positive := Range.mk (Some 40%float) (Some 20%float)]})).
  { rewrite between_unfold.
    rewrite (min_linked this 1%positive ∅ 40%float {[1%positive := ∅]}) by reflexivity.
    rewrite (max_linked this 1%positive (Range.set_min 40%float ∅) 20%float)
      by reflexivity.
    reflexivity. }
  split; [reflexivity|]. split; [|exact Hrun].
  rewrite Hrun. intros [e He]. discriminate He.
Qed.

(** C5, amended: the arguments of [.between(a, b)] are compared with the
    fixed rule bounds, never with each other.  When [a] is not below the
    rule's [min] and [b] is above the rule's [max], the call throws on its
    [max] step, after the [min] step has merged [min: a], and the error
    cites the rule's [max].  When neither bound is violated the call
    succeeds and leaves [min: a] and [max: b], whichever of [a] and [b] is
    the larger. *)
Theorem between_fails_on_max_step (this : RangeConstruct.t) l c a b
    (σ : gmap loc Range.t) :
  setter this = linked l → σ !! l = Some c →
  below_min (rules this) a = false →
  (∀ rmax, Range.max (rules this) = Some rmax → (rmax <? b)%float = true →
     RangeConstruct.between this a b σ
     = (inl (Error_new RangeConstruct.max_text rmax), <[l := Range.set_min a c]> σ))
  ∧ (above_max (rules this) b = false →
     RangeConstruct.between this a b σ
     = (inr this, <[l := Range.set_max b (Range.set_min a c)]> σ)).
Proof.
  intros Hs Hl Ha. split.
  - intros rmax Hr Hb. rewrite between_unfold, (min_linked this l c a σ Hs Hl Ha).
    rewrite max_unfold, Hr, Hb. reflexivity.
  - intros Hb. rewrite between_unfold, (min_linked this l c a σ Hs Hl Ha).
    rewrite (max_linked this l (Range.set_min a c) b _ Hs (lookup_insert_eq _ _ _) Hb).
    rewrite insert_insert_eq. reflexivity.
Qed.

Lemma between_fails_on_max_step_witness :
  let this : RangeConstruct.t :=
    Construct_new (linked 1%positive) (Some (Range.mk (Some 10%float) (Some 50%float))) in
  let σ : gmap loc Range.t := {[1%positive := ∅]} in
  RangeConstruct.between this 20%float 60%float σ
  = (inl (Error_new RangeConstruct.max_text 50%float),
     <[1%positive := Range.mk (Some 20%float) None]> σ)
  ∧ RangeConstruct.between this 40%float 20%float σ
  = (inr this, <[1%positive := Range.mk (Some 40%float) (Some 20%float)]> σ).
Proof.
  intros this σ. split.
  - apply (between_fails_on_max_step this 1%positive ∅ 20%float 60%float σ
             eq_refl eq_refl eq_refl); reflexivity.
  - apply (between_fails_on_max_step this 1%positive ∅ 40%float 20%float σ
             eq_refl eq_refl eq_refl); reflexivity.
Defined.

(** ** A failed call *)

(** C6: when [.min(v)] or [.max(v)] throws, the store is exactly the store
    before the call: the check comes before [this.setter(...)], so nothing
    is merged.  The setter plays no part in a failing call: with any other
    setter and the same rules the call throws the same error and leaves the
    store alone as well. *)
Theorem failed_call_changes_nothing (this : RangeConstruct.t) (v : number)
    (σ σ' : gmap loc Range.t) (e : Error) :
  (RangeConstruct.min this v σ = (inl e, σ') →
     σ' = σ ∧ ∀ s, RangeConstruct.min (Build_Construct s (rules this)) v σ = (inl e, σ))
  ∧ (RangeConstruct.max this v σ = (inl e, σ') →
     σ' = σ ∧ ∀ s, RangeConstruct.max (Build_Construct s (rules this)) v σ = (inl e, σ)).
Proof.
  split; intros Hrun.
  - rewrite min_unfold in Hrun.
    destruct (Range.min (rules this)) as [rmin|] eqn:Hr; [|discriminate].
    destruct (v <? rmin)%float eqn:Hv; [|discriminate].
    injection Hrun as <- <-. split; [reflexivity|].
    intros s. rewrite min_unfold. simpl. rewrite Hr, Hv. reflexivity.
  - rewrite max_unfold in Hrun.
    destruct (Range.max (rules this)) as [rmax|] eqn:Hr; [|discriminate].
    destruct (rmax <? v)%float eqn:Hv; [|discriminate].
    injection Hrun as <- <-. split; [reflexivity|].
    intros s. rewrite max_unfold. simpl. rewrite Hr, Hv. reflexivity.
Qed.

Lemma failed_call_changes_nothing_witness :
  let this : RangeConstruct.t :=
    Construct_new (linked 1%positive) (Some (Range.mk (Some 10%float) (Some 50%float))) in
  let σ : gmap loc Range.t := {[1%positive := Range.mk (Some 20%float) None]} in
  RangeConstruct.min this 5%float σ = (inl (Error_new RangeConstruct.min_text 10%float), σ)
  ∧ RangeConstruct.max this 60%float σ = (inl (Error_new RangeConstruct.max_text 50%float), σ)
  ∧ (∀ s, RangeConstruct.min (Build_Construct s (rules this)) 5%float σ
          = (inl (Error_new RangeConstruct.min_text 10%float), σ))
  ∧ (∀ s, RangeConstruct.max (Build_Construct s (rules this)) 60%float σ
          = (inl (Error_new RangeConstruct.max_text 50%float), σ)).
Proof.
  intros this σ.
  split; [reflexivity|]. split; [reflexivity|]. split.
  - exact (proj2 (proj1 (failed_call_changes_nothing this 5%float σ σ
                           (Error_new RangeConstruct.min_text 10%float)) eq_refl)).
  - exact (proj2 (proj2 (failed_call_changes_nothing this 60%float σ σ
                           (Error_new RangeConstruct.max_text 50%float)) eq_refl)).
Defined.

(** ** Chains of [even] and [odd] *)

Lemma apply_run (this : EvenOddConstruct.t) c σ :
  EvenOddConstruct.apply this c σ
  = (inr this, setter this (assign (EvenOdd.set_even (EvenOddConstruct.setting c))) σ).
Proof. destruct c; reflexivity. Qed.

Lemma chain_cons (this : EvenOddConstruct.t) c cs σ :
  EvenOddConstruct.chain this (c :: cs) σ
  = EvenOddConstruct.chain this cs (snd (EvenOddConstruct.apply this c σ)).
Proof.
  simpl. unfold mbind, M_bind. rewrite apply_run. reflexivity.
Qed.

Lemma chain_returns (this : EvenOddConstruct.t) cs :
  ∀ σ, fst (EvenOddConstruct.chain this cs σ) = inr this.
Proof.
  induction cs as [|c cs IH]; intros σ; [reflexivity|].
  rewrite chain_cons. apply IH.
Qed.

Lemma chain_app (this : EvenOddConstruct.t) cs cs' :
  ∀ σ, snd (EvenOddConstruct.chain this (cs ++ cs') σ)
       = snd (EvenOddConstruct.chain this cs' (snd (EvenOddConstruct.chain this cs σ))).
Proof.
  induction cs as [|c cs IH]; intros σ; [reflexivity|].
  rewrite <- app_comm_cons, !chain_cons. apply IH.
Qed.

Lemma chain_keeps_target (this : EvenOddConstruct.t) l cs :
  setter this = linked l →
  ∀ σ, is_Some (σ !! l) → is_Some (snd (EvenOddConstruct.chain this cs σ) !! l).
Proof.
  intros Hs. induction cs as [|c cs IH]; intros σ Hl; [exact Hl|].
  rewrite chain_cons. apply IH. rewrite apply_run. simpl.
  rewrite (linked_assign this l) by assumption.
  rewrite lookup_alter_eq. destruct Hl as [o ->]. eexists. reflexivity.
Qed.

(** C8: in a chain of [.even()] and [.odd()] calls of any length no call
    throws, whatever the setter; and when the setter is linked to a
    constraint object, after a chain that ends with [.even()] that object's
    [even] is [true], after one that ends with [.odd()] it is [false]. *)
Theorem even_odd_last_call_wins (this : EvenOddConstruct.t)
    (σ : gmap loc EvenOdd.t) (cs : list EvenOddConstruct.call) :
  fst (EvenOddConstruct.chain this cs σ) = inr this
  ∧ ∀ l c last, setter this = linked l → σ !! l = Some c →
      constraints_at l (snd (EvenOddConstruct.chain this (cs ++ [last]) σ))
      = Some (EvenOdd.mk (Some (EvenOddConstruct.setting last))).
Proof.
  split; [apply chain_returns|].
  intros l c last Hs Hl. rewrite chain_app, chain_cons. simpl.
  rewrite apply_run. simpl. rewrite (linked_assign this l) by assumption.
  unfold constraints_at. rewrite lookup_alter_eq.
  destruct (chain_keeps_target this l cs Hs σ) as [o ->]; [eauto|]. reflexivity.
Qed.

Lemma even_odd_last_call_wins_witness :
  let this : EvenOddConstruct.t := Construct_new (linked 1%positive) None in
  let σ : gmap loc EvenOdd.t := {[1%positive := ∅]} in
  σ !! 1%positive = Some ∅
  ∧ constraints_at 1%positive
      (snd (EvenOddConstruct.chain this
              [EvenOddConstruct.Even; EvenOddConstruct.Odd; EvenOddConstruct.Even;
               EvenOddConstruct.Odd] σ))
    = Some (EvenOdd.mk (Some false)).
Proof.
  intros this σ. split; [reflexivity|].
  exact (proj2 (even_odd_last_call_wins this σ
                  [EvenOddConstruct.Even; EvenOddConstruct.Odd; EvenOddConstruct.Even])
           1%positive ∅ EvenOddConstruct.Odd eq_refl eq_refl).
Defined.

(** ** Values on the boundary, and builders without rules *)

(** C9: the checks are not strict.  When the fixed rule [min] is [v] itself,
    [.min(v)] succeeds and the constraint object then has [min: v]; when the
    fixed rule [max] is [v] itself, [.max(v)] succeeds and the constraint
    object then has [max: v]. *)
Theorem bound_itself_is_accepted (this : RangeConstruct.t) l c (v : number)
    (σ : gmap loc Range.t) :
  setter this = linked l → σ !! l = Some c →
  (Range.min (rules this) = Some v →
     ∃ σ', RangeConstruct.min this v σ = (inr this, σ')
           ∧ Range.min <$> constraints_at l σ' = Some (Some v))
  ∧ (Range.max (rules this) = Some v →
     ∃ σ', RangeConstruct.max this v σ = (inr this, σ')
           ∧ Range.max <$> constraints_at l σ' = Some (Some v)).
Proof.
  intros Hs Hl. split; intros Hr.
  - exists (<[l := Range.set_min v c]> σ). split.
    + apply min_linked; try assumption.
      unfold below_min. rewrite Hr. apply ltb_irrefl.
    + unfold constraints_at. rewrite lookup_insert_eq. reflexivity.
  - exists (<[l := Range.set_max v c]> σ). split.
    + apply max_linked; try assumption.
      unfold above_max. rewrite Hr. apply ltb_irrefl.
    + unfold constraints_at. rewrite lookup_insert_eq. reflexivity.
Qed.

Lemma bound_itself_is_accepted_witness :
  let this : RangeConstruct.t :=
    Construct_new (linked 1%positive) (Some (Range.mk (Some 10%float) (Some 10%float))) in
  let σ : gmap loc Range.t := {[1%positive := ∅]} in
  (∃ σ', RangeConstruct.min this 10%float σ = (inr this, σ')
         ∧ Range.min <$> constraints_at 1%positive σ' = Some (Some 10%float))
  ∧ (∃ σ', RangeConstruct.max this 10%float σ = (inr this, σ')
           ∧ Range.max <$> constraints_at 1%positive σ' = Some (Some 10%float)).
Proof.
  intros this σ.
  destruct (bound_itself_is_accepted this 1%positive ∅ 10%float σ eq_refl eq_refl)
    as [Hmin Hmax].
  split; [exact (Hmin eq_refl) | exact (Hmax eq_refl)].
Defined.

(** C10: a Construct built without a rules argument has the empty rule map,
    and a RangeConstruct built that way never throws: for every setter,
    every store and all arguments, [.min(a)], [.max(b)] and [.between(a, b)]
    return the builder. *)
Theorem no_rules_no_error (s : Setter Range.t) :
  let this : RangeConstruct.t := Construct_new s None in
  rules this = Range.mk None None
  ∧ ∀ (a b : number) (σ : gmap loc Range.t),
      fst (RangeConstruct.min this a σ) = inr this
      ∧ fst (RangeConstruct.max this b σ) = inr this
      ∧ fst (RangeConstruct.between this a b σ) = inr this.
Proof.
  intros this. split; [reflexivity|]. intros a b σ.
  split; [reflexivity|]. split; [reflexivity|].
  rewrite between_unfold.
  rewrite (min_passes this a σ eq_refl), (max_passes this b _ eq_refl). reflexivity.
Qed.

(** * Further properties of the builders *)

(** ** The order of numbers

    The comparisons of binary64 values, read through their specification
    ([SFcompare]): NaN is below and above nothing, and the other values are
    totally ordered. *)

Ltac sf_order :=
  repeat match goal with
  | s : bool |- _ => destruct s
  end;
  simpl in *; try discriminate; try reflexivity;
  change PosDef.Pos.compare_cont with Pos.compare_cont in *;
  repeat match goal with
  | H : context [Pos.compare_cont Eq ?a ?b] |- _ =>
      change (Pos.compare_cont Eq a b) with (Pos.compare a b) in *
  | |- context [Pos.compare_cont Eq ?a ?b] =>
      change (Pos.compare_cont Eq a b) with (Pos.compare a b) in *
  end;
  repeat match goal with
  | H : context [Z.compare ?a ?b] |- _ => destruct (Z.compare_spec a b)
  | |- context [Z.compare ?a ?b] => destruct (Z.compare_spec a b)
  | H : context [Pos.compare ?a ?b] |- _ => destruct (Pos.compare_spec a b)
  | |- context [Pos.compare ?a ?b] => destruct (Pos.compare_spec a b)
  end;
  simpl in *; try discriminate; try reflexivity; try lia.

Lemma SFleb_ltb_trans x y z :
  SFleb x y = true → SFltb y z = true → SFltb x z = true.
Proof.
  unfold SFleb, SFltb.
  destruct x as [s1|s1| |s1 m1 e1], y as [s2|s2| |s2 m2 e2], z as [s3|s3| |s3 m3 e3];
    simpl; try discriminate; try reflexivity; intros H1 H2; sf_order.
Qed.

Lemma SFltb_leb_trans x y z :
  SFltb x y = true → SFleb y z = true → SFltb x z = true.
Proof.
  unfold SFleb, SFltb.
  destruct x as [s1|s1| |s1 m1 e1], y as [s2|s2| |s2 m2 e2], z as [s3|s3| |s3 m3 e3];
    simpl; try discriminate; try reflexivity; intros H1 H2; sf_order.
Qed.

Lemma SF_total x y :
  SFeqb x x = true → SFeqb y y = true → SFltb x y = true ∨ SFleb y x = true.
Proof.
  unfold SFleb, SFltb, SFeqb.
  destruct x as [s1|s1| |s1 m1 e1], y as [s2|s2| |s2 m2 e2];
    simpl; try discriminate; intros _ _;
    try (left; reflexivity); try (right; reflexivity);
    destruct s1, s2; simpl; auto; sf_order; auto; try lia.
Qed.

Lemma SFleb_not_ltb x y : SFleb x y = true → SFltb y x = false.
Proof.
  unfold SFleb, SFltb.
  destruct x as [s1|s1| |s1 m1 e1], y as [s2|s2| |s2 m2 e2];
    simpl; try discriminate; try reflexivity; intros H1; sf_order.
Qed.

Lemma SFeqb_refl_false x : SFeqb x x = false → x = S754_nan.
Proof.
  unfold SFeqb. destruct x as [s|s| |s m e]; simpl; try reflexivity.
  - discriminate.
  - destruct s; discriminate.
  - change (PosDef.Pos.compare_cont Eq m m) with (Pos.compare m m).
    destruct s; rewrite Z.compare_refl, Pos.compare_refl; discriminate.
Qed.

Lemma is_nan_spec (v : number) : is_nan v = true → Prim2SF v = S754_nan.
Proof.
  unfold is_nan. rewrite FloatAxioms.eqb_spec. intros H. apply SFeqb_refl_false.
  destruct (SFeqb (Prim2SF v) (Prim2SF v)); [discriminate|reflexivity].
Qed.

Lemma not_nan_spec (v : number) :
  is_nan v = false → SFeqb (Prim2SF v) (Prim2SF v) = true.
Proof.
  unfold is_nan. rewrite FloatAxioms.eqb_spec.
  destruct (SFeqb (Prim2SF v) (Prim2SF v)); [reflexivity|discriminate].
Qed.

Lemma ltb_nan_l (v w : number) : is_nan v = true → (v <? w)%float = false.
Proof. intros H. rewrite ltb_spec, (is_nan_spec v H). reflexivity. Qed.

Lemma ltb_nan_r (v w : number) : is_nan w = true → (v <? w)%float = false.
Proof.
  intros H. rewrite ltb_spec, (is_nan_spec w H).
  destruct (Prim2SF v); reflexivity.
Qed.

Lemma leb_ltb_trans (u v w : number) :
  (u <=? v)%float = true → (v <? w)%float = true → (u <? w)%float = true.
Proof. rewrite leb_spec, !ltb_spec. apply SFleb_ltb_trans. Qed.

Lemma ltb_leb_trans (u v w : number) :
  (u <? v)%float = true → (v <=? w)%float = true → (u <? w)%float = true.
Proof. rewrite leb_spec, !ltb_spec. apply SFltb_leb_trans. Qed.

Lemma leb_not_ltb (v w : number) : (v <=? w)%float = true → (w <? v)%float = false.
Proof. rewrite leb_spec, ltb_spec. apply SFleb_not_ltb. Qed.

Lemma ltb_or_leb (v w : number) :
  is_nan v = false → is_nan w = false →
  (v <? w)%float = true ∨ (w <=? v)%float = true.
Proof.
  intros Hv Hw. rewrite leb_spec, ltb_spec.
  apply SF_total; apply not_nan_spec; assumption.
Qed.

Lemma leb_not_nan (v w : number) :
  (v <=? w)%float = true → is_nan v = false ∧ is_nan w = false.
Proof.
  intros H. split.
  - destruct (is_nan v) eqn:Hn; [|reflexivity].
    rewrite leb_spec, (is_nan_spec v Hn) in H. discriminate H.
  - destruct (is_nan w) eqn:Hn; [|reflexivity].
    rewrite leb_spec, (is_nan_spec w Hn) in H.
    destruct (Prim2SF v); discriminate H.
Qed.

Lemma ltb_not_nan (v w : number) :
  (v <? w)%float = true → is_nan v = false ∧ is_nan w = false.
Proof.
  intros H. split.
  - destruct (is_nan v) eqn:Hn; [|reflexivity].
    rewrite (ltb_nan_l v w Hn) in H. discriminate H.
  - destruct (is_nan w) eqn:Hn; [|reflexivity].
    rewrite (ltb_nan_r v w Hn) in H. discriminate H.
Qed.

(** ** What the guards accept *)

Lemma min_returns_iff (this : RangeConstruct.t) v σ :
  fst (RangeConstruct.min this v σ) = inr this ↔ below_min (rules this) v = false.
Proof.
  unfold below_min. rewrite min_unfold.
  destruct (Range.min (rules this)) as [rmin|]; [destruct (v <? rmin)%float|];
    simpl; split; intros H; try reflexivity; discriminate H.
Qed.

Lemma max_returns_iff (this : RangeConstruct.t) v σ :
  fst (RangeConstruct.max this v σ) = inr this ↔ above_max (rules this) v = false.
Proof.
  unfold above_max. rewrite max_unfold.
  destruct (Range.max (rules this)) as [rmax|]; [destruct (rmax <? v)%float|];
    simpl; split; intros H; try reflexivity; discriminate H.
Qed.

Lemma below_min_iff_not_leb (lo v : number) :
  is_nan lo = false → is_nan v = false →
  (v <? lo)%float = negb (lo <=? v)%float.
Proof.
  intros Hlo Hv. destruct (lo <=? v)%float eqn:Hle; simpl.
  - apply leb_not_ltb, Hle.
  - destruct (ltb_or_leb v lo Hv Hlo) as [H|H]; [exact H|congruence].
Qed.

(** X1: for numbers (neither the argument nor the bound is NaN) the guards
    are exactly the tests the messages announce: under a rule [min: lo],
    [.min(v)] returns the builder when [lo <= v] and throws citing [lo]
    otherwise; under a rule [max: hi], [.max(v)] returns when [v <= hi] and
    throws citing [hi] otherwise.  The setter runs only in the first case. *)
Theorem guards_are_at_least_at_most (this : RangeConstruct.t) (v : number)
    (σ : gmap loc Range.t) :
  is_nan v = false →
  (∀ lo, Range.min (rules this) = Some lo → is_nan lo = false →
     RangeConstruct.min this v σ
     = if (lo <=? v)%float
       then (inr this, setter this (assign (Range.set_min v)) σ)
       else (inl (Error_new RangeConstruct.min_text lo), σ))
  ∧ (∀ hi, Range.max (rules this) = Some hi → is_nan hi = false →
     RangeConstruct.max this v σ
     = if (v <=? hi)%float
       then (inr this, setter this (assign (Range.set_max v)) σ)
       else (inl (Error_new RangeConstruct.max_text hi), σ)).
Proof.
  intros Hv. split.
  - intros lo Hr Hlo. rewrite min_unfold, Hr, (below_min_iff_not_leb lo v Hlo Hv).
    destruct (lo <=? v)%float; reflexivity.
  - intros hi Hr Hhi. rewrite max_unfold, Hr, (below_min_iff_not_leb v hi Hv Hhi).
    destruct (v <=? hi)%float; reflexivity.
Qed.

Lemma guards_are_at_least_at_most_witness :
  let this : RangeConstruct.t :=
    Construct_new (linked 1%positive) (Some (Range.mk (Some 10%float) (Some 50%float))) in
  let σ : gmap loc Range.t := {[1%positive := ∅]} in
  is_nan 30%float = false
  ∧ RangeConstruct.min this 30%float σ
    = (inr this, {[1%positive := Range.mk (Some 30%float) None]})
  ∧ RangeConstruct.max this 30%float σ
    = (inr this, {[1%positive := Range.mk None (Some 30%float)]}).
Proof.
  intros this σ. split; [reflexivity|].
  destruct (guards_are_at_least_at_most this 30%float σ eq_refl) as [Hmin Hmax].
  split.
  - exact (Hmin 10%float eq_refl eq_refl).
  - exact (Hmax 50%float eq_refl eq_refl).
Defined.

(** X2: NaN passes every check.  Whatever the rules, [.min(NaN)] and
    [.max(NaN)] do not throw: the setter is called and NaN is what the
    callback assigns. *)
Theorem nan_is_never_rejected (this : RangeConstruct.t) (v : number)
    (σ : gmap loc Range.t) :
  is_nan v = true →
  RangeConstruct.min this v σ = (inr this, setter this (assign (Range.set_min v)) σ)
  ∧ RangeConstruct.max this v σ = (inr this, setter this (assign (Range.set_max v)) σ).
Proof.
  intros Hv. split.
  - apply min_passes. unfold below_min.
    destruct (Range.min (rules this)); [apply ltb_nan_l, Hv|reflexivity].
  - apply max_passes. unfold above_max.
    destruct (Range.max (rules this)); [apply ltb_nan_r, Hv|reflexivity].
Qed.

Lemma nan_is_never_rejected_witness :
  let this : RangeConstruct.t :=
    Construct_new (linked 1%positive) (Some (Range.mk (Some 10%float) (Some 50%float))) in
  let σ : gmap loc Range.t := {[1%positive := ∅]} in
  is_nan nan = true
  ∧ RangeConstruct.min this nan σ = (inr this, {[1%positive := Range.mk (Some nan) None]})
  ∧ RangeConstruct.max this nan σ = (inr this, {[1%positive := Range.mk None (Some nan)]}).
Proof.
  intros this σ. split; [reflexivity|].
  exact (nan_is_never_rejected this nan σ eq_refl).
Defined.

(** X3: a rule bound that is NaN checks nothing: under a rule whose [min]
    is NaN every [.min(v)] returns the builder, and under a rule whose [max]
    is NaN every [.max(v)] does. *)
Theorem nan_bound_rejects_nothing (this : RangeConstruct.t) (v : number)
    (σ : gmap loc Range.t) :
  (∀ lo, Range.min (rules this) = Some lo → is_nan lo = true →
     RangeConstruct.min this v σ = (inr this, setter this (assign (Range.set_min v)) σ))
  ∧ (∀ hi, Range.max (rules this) = Some hi → is_nan hi = true →
     RangeConstruct.max this v σ = (inr this, setter this (assign (Range.set_max v)) σ)).
Proof.
  split.
  - intros lo Hr Hlo. apply min_passes. unfold below_min. rewrite Hr.
    apply ltb_nan_r, Hlo.
  - intros hi Hr Hhi. apply max_passes. unfold above_max. rewrite Hr.
    apply ltb_nan_l, Hhi.
Qed.

Lemma nan_bound_rejects_nothing_witness :
  let this : RangeConstruct.t :=
    Construct_new (linked 1%positive) (Some (Range.mk (Some nan) (Some nan))) in
  let σ : gmap loc Range.t := {[1%positive := ∅]} in
  RangeConstruct.min this (-1000)%float σ
    = (inr this, {[1%positive := Range.mk (Some (-1000)%float) None]})
  ∧ RangeConstruct.max this 1000%float σ
    = (inr this, {[1%positive := Range.mk None (Some 1000%float)]}).
Proof.
  intros this σ.
  destruct (nan_bound_rejects_nothing this (-1000)%float σ) as [Hmin _].
  destruct (nan_bound_rejects_nothing this 1000%float σ) as [_ Hmax].
  split.
  - exact (Hmin nan eq_refl eq_refl).
  - exact (Hmax nan eq_refl eq_refl).
Defined.

(** X4: acceptance is closed upwards for [min] and downwards for [max]: if
    [.min(v)] returns, so does [.min(w)] for every [w >= v], in any store;
    if [.max(v)] returns, so does [.max(w)] for every [w <= v]. *)
Theorem acceptance_is_monotone (this : RangeConstruct.t) (v w : number)
    (σ σ' : gmap loc Range.t) :
  (fst (RangeConstruct.min this v σ) = inr this → (v <=? w)%float = true →
     fst (RangeConstruct.min this w σ') = inr this)
  ∧ (fst (RangeConstruct.max this v σ) = inr this → (w <=? v)%float = true →
     fst (RangeConstruct.max this w σ') = inr this).
Proof.
  split; intros Hv Hle.
  - apply min_returns_iff. apply min_returns_iff in Hv. unfold below_min in *.
    destruct (Range.min (rules this)) as [lo|]; [|reflexivity].
    destruct (w <? lo)%float eqn:Hw; [|reflexivity].
    rewrite (leb_ltb_trans v w lo Hle Hw) in Hv. discriminate Hv.
  - apply max_returns_iff. apply max_returns_iff in Hv. unfold above_max in *.
    destruct (Range.max (rules this)) as [hi|]; [|reflexivity].
    destruct (hi <? w)%float eqn:Hw; [|reflexivity].
    rewrite (ltb_leb_trans hi w v Hw Hle) in Hv. discriminate Hv.
Qed.

Lemma acceptance_is_monotone_witness :
  let this : RangeConstruct.t :=
    Construct_new (linked 1%positive) (Some (Range.mk (Some 10%float) (Some 50%float))) in
  let σ : gmap loc Range.t := {[1%positive := ∅]} in
  fst (RangeConstruct.min this 70%float σ) = inr this
  ∧ fst (RangeConstruct.max this 5%float σ) = inr this.
Proof.
  intros this σ.
  destruct (acceptance_is_monotone this 20%float 70%float σ σ) as [Hmin _].
  destruct (acceptance_is_monotone this 20%float 5%float σ σ) as [_ Hmax].
  split; [exact (Hmin eq_refl eq_refl) | exact (Hmax eq_refl eq_refl)].
Defined.

(** X5: a rule whose [max] is below its [min] is accepted by the
    constructor, and then no range passes: [.between(a, b)] throws for all
    [a <= b]. *)
Theorem inverted_rule_rejects_every_range (this : RangeConstruct.t)
    (lo hi a b : number) (σ : gmap loc Range.t) :
  Range.min (rules this) = Some lo → Range.max (rules this) = Some hi →
  (hi <? lo)%float = true → (a <=? b)%float = true →
  ∃ e, fst (RangeConstruct.between this a b σ) = inl e.
Proof.
  intros Hlo Hhi Hinv Hab. rewrite between_unfold.
  destruct (below_min (rules this) a) eqn:Ha.
  - destruct (min_throws this a σ Ha) as (rmin & _ & ->). eexists. reflexivity.
  - rewrite (min_passes this a σ Ha).
    assert (Hb : above_max (rules this) b = true).
    { unfold below_min in Ha. unfold above_max. rewrite Hlo in Ha. rewrite Hhi.
      destruct (ltb_or_leb a lo) as [H|H].
      - apply (leb_not_nan a b Hab).
      - apply (ltb_not_nan hi lo Hinv).
      - congruence.
      - apply (ltb_leb_trans hi a b); [|exact Hab].
        apply (ltb_leb_trans hi lo a); assumption. }
    destruct (max_throws this b (setter this (assign (Range.set_min a)) σ) Hb)
      as (rmax & _ & ->).
    eexists. reflexivity.
Qed.

Lemma inverted_rule_rejects_every_range_witness :
  let this : RangeConstruct.t :=
    Construct_new (linked 1%positive) (Some (Range.mk (Some 50%float) (Some 10%float))) in
  ∃ e, fst (RangeConstruct.between this 20%float 30%float {[1%positive := ∅]}) = inl e.
Proof.
  intros this.
  exact (inverted_rule_rejects_every_range this 50%float 10%float 20%float 30%float
           {[1%positive := ∅]} eq_refl eq_refl eq_refl eq_refl).
Defined.

(** X6: [.between(a, b)] reports the [min] violation first.  When [a] is
    below the rule's [min] the call throws the [min] error whatever [b] is,
    and the store is untouched: [max: b] is not merged even if [b] is
    acceptable, and the setter, whichever it is, is never called. *)
Theorem between_reports_min_first (this : RangeConstruct.t) (a b : number)
    (σ : gmap loc Range.t) :
  below_min (rules this) a = true →
  ∃ lo, Range.min (rules this) = Some lo
        ∧ RangeConstruct.between this a b σ
          = (inl (Error_new RangeConstruct.min_text lo), σ).
Proof.
  intros Ha. destruct (min_throws this a σ Ha) as (lo & Hlo & Hrun).
  exists lo. split; [exact Hlo|]. rewrite between_unfold, Hrun. reflexivity.
Qed.

Lemma between_reports_min_first_witness :
  let this : RangeConstruct.t :=
    Construct_new (linked 1%positive) (Some (Range.mk (Some 10%float) (Some 50%float))) in
  ∃ lo, Range.min (rules this) = Some lo
        ∧ RangeConstruct.between this 5%float 60%float {[1%positive := ∅]}
          = (inl (Error_new RangeConstruct.min_text lo), {[1%positive := ∅]}).
Proof.
  intros this.
  exact (between_reports_min_first this 5%float 60%float {[1%positive := ∅]} eq_refl).
Defined.

(** ** The two orders of [min] and [max] *)

Lemma max_then_min_unfold (this : RangeConstruct.t) a b σ :
  max_then_min this a b σ =
  match RangeConstruct.max this b σ with
  | (inl e, σ1) => (inl e, σ1)
  | (inr this', σ1) => RangeConstruct.min this' a σ1
  end.
Proof. reflexivity. Qed.

(** X7: [.min(a).max(b)] and [.max(b).min(a)] accept the same arguments,
    and when they return they leave the same constraints, [{min: a, max: b}],
    whatever had been accumulated before.  When a bound is violated both
    chains throw. *)
Theorem min_and_max_commute (this : RangeConstruct.t) l c (a b : number)
    (σ : gmap loc Range.t) :
  setter this = linked l → σ !! l = Some c →
  if negb (below_min (rules this) a) && negb (above_max (rules this) b)
  then RangeConstruct.min_then_max this a b σ
       = (inr this, <[l := Range.mk (Some a) (Some b)]> σ)
       ∧ max_then_min this a b σ
       = (inr this, <[l := Range.mk (Some a) (Some b)]> σ)
  else (∃ e, fst (RangeConstruct.min_then_max this a b σ) = inl e)
       ∧ (∃ e, fst (max_then_min this a b σ) = inl e).
Proof.
  intros Hs Hl. rewrite min_then_max_unfold, max_then_min_unfold.
  destruct (below_min (rules this) a) eqn:Ha, (above_max (rules this) b) eqn:Hb; simpl.
  - destruct (min_throws this a σ Ha) as (lo & _ & ->).
    destruct (max_throws this b σ Hb) as (hi & _ & ->). eauto.
  - destruct (min_throws this a σ Ha) as (lo & _ & ->).
    rewrite (max_linked this l c b σ Hs Hl Hb).
    destruct (min_throws this a (<[l := Range.set_max b c]> σ) Ha) as (lo' & _ & ->).
    eauto.
  - rewrite (min_linked this l c a σ Hs Hl Ha).
    destruct (max_throws this b σ Hb) as (hi & _ & ->).
    destruct (max_throws this b (<[l := Range.set_min a c]> σ) Hb) as (hi' & _ & ->).
    eauto.
  - rewrite (min_linked this l c a σ Hs Hl Ha), (max_linked this l c b σ Hs Hl Hb).
    rewrite (max_linked this l (Range.set_min a c) b _ Hs (lookup_insert_eq _ _ _) Hb).
    rewrite (min_linked this l (Range.set_max b c) a _ Hs (lookup_insert_eq _ _ _) Ha).
    rewrite !insert_insert_eq. split; reflexivity.
Qed.

Lemma min_and_max_commute_witness :
  let this : RangeConstruct.t :=
    Construct_new (linked 1%positive) (Some (Range.mk (Some 10%float) (Some 50%float))) in
  let σ : gmap loc Range.t := {[1%positive := Range.mk (Some 11%float) (Some 12%float)]} in
  RangeConstruct.min_then_max this 20%float 40%float σ
  = (inr this, <[1%positive := Range.mk (Some 20%float) (Some 40%float)]> σ)
  ∧ max_then_min this 20%float 40%float σ
  = (inr this, <[1%positive := Range.mk (Some 20%float) (Some 40%float)]> σ).
Proof.
  intros this σ.
  exact (min_and_max_commute this 1%positive (Range.mk (Some 11%float) (Some 12%float))
           20%float 40%float σ eq_refl eq_refl).
Defined.

(** ** Chains of range calls *)

Lemma range_chain_cons (this : RangeConstruct.t) c cs σ :
  RangeChain.chain this (c :: cs) σ =
  match RangeChain.apply this c σ with
  | (inl e, σ1) => (inl e, σ1)
  | (inr this', σ1) => RangeChain.chain this' cs σ1
  end.
Proof. reflexivity. Qed.

Lemma range_apply_accepted (this : RangeConstruct.t) c σ :
  RangeChain.accepted (rules this) c = true →
  ∃ σ', RangeChain.apply this c σ = (inr this, σ').
Proof.
  destruct c as [v|v|a b]; simpl; intros Hc.
  - apply negb_true_iff in Hc. rewrite (min_passes this v σ Hc). eauto.
  - apply negb_true_iff in Hc. rewrite (max_passes this v σ Hc). eauto.
  - apply andb_true_iff in Hc as [Ha%negb_true_iff Hb%negb_true_iff].
    rewrite between_unfold, (min_passes this a σ Ha), (max_passes this b _ Hb). eauto.
Qed.

Lemma range_apply_rejected (this : RangeConstruct.t) c σ :
  RangeChain.accepted (rules this) c = false →
  ∃ e σ', RangeChain.apply this c σ = (inl e, σ').
Proof.
  destruct c as [v|v|a b]; simpl; intros Hc.
  - apply negb_false_iff in Hc. destruct (min_throws this v σ Hc) as (lo & _ & ->). eauto.
  - apply negb_false_iff in Hc. destruct (max_throws this v σ Hc) as (hi & _ & ->). eauto.
  - rewrite between_unfold. destruct (below_min (rules this) a) eqn:Ha.
    + destruct (min_throws this a σ Ha) as (lo & _ & ->). eauto.
    + rewrite (min_passes this a σ Ha). simpl in Hc. apply negb_false_iff in Hc.
      destruct (max_throws this b (setter this (assign (Range.set_min a)) σ) Hc)
        as (hi & _ & ->).
      eauto.
Qed.


(** X9: a chain stops at its first rejected call.  If the calls [cs] all
    pass and [c] does not, the chain [cs, c, cs'] ends with the error of
    [c], thrown on the store that the calls [cs] have produced: what they
    merged stays merged, and none of the calls [cs'] is made. *)
Theorem range_chain_stops_at_first_rejection (this : RangeConstruct.t)
    (cs cs' : list RangeChain.call) (c : RangeChain.call) (σ : gmap loc Range.t) :
  forallb (RangeChain.accepted (rules this)) cs = true →
  RangeChain.accepted (rules this) c = false →
  (∃ e, fst (RangeChain.chain this (cs ++ c :: cs') σ) = inl e)
  ∧ RangeChain.chain this (cs ++ c :: cs') σ
    = RangeChain.apply this c (snd (RangeChain.chain this cs σ)).
Proof.
  intros Hcs Hc. revert σ.
  assert (Happ : ∀ σ, RangeChain.chain this (cs ++ c :: cs') σ
                      = RangeChain.apply this c (snd (RangeChain.chain this cs σ))).
  { induction cs as [|c1 cs IH]; intros σ.
    - simpl app. rewrite range_chain_cons. simpl.
      destruct (range_apply_rejected this c σ Hc) as (e & σ' & ->). reflexivity.
    - simpl in Hcs. apply andb_true_iff in Hcs as [Hc1 Hcs].
      rewrite <- app_comm_cons, !range_chain_cons.
      destruct (range_apply_accepted this c1 σ Hc1) as [σ1 ->]. apply IH, Hcs. }
  intros σ. split; [|apply Happ].
  rewrite Happ.
  destruct (range_apply_rejected this c (snd (RangeChain.chain this cs σ)) Hc)
    as (e & σ' & ->).
  eauto.
Qed.

Lemma range_chain_stops_at_first_rejection_witness :
  let this : RangeConstruct.t :=
    Construct_new (linked 1%positive) (Some (Range.mk (Some 10%float) (Some 50%float))) in
  RangeChain.chain this
    [RangeChain.Min 20%float; RangeChain.Max 60%float; RangeChain.Max 40%float]
    {[1%positive := ∅]}
  = (inl (Error_new RangeConstruct.max_text 50%float),
     {[1%positive := Range.mk (Some 20%float) None]}).
Proof.
  intros this.
  exact (proj2 (range_chain_stops_at_first_rejection this
                  [RangeChain.Min 20%float] [RangeChain.Max 40%float]
                  (RangeChain.Max 60%float) {[1%positive := ∅]} eq_refl eq_refl)).
Defined.

Lemma range_apply_linked (this : RangeConstruct.t) l o c (σ : gmap loc Range.t) :
  setter this = linked l → σ !! l = Some o →
  RangeChain.accepted (rules this) c = true →
  RangeChain.apply this c σ = (inr this, <[l := RangeChain.update c o]> σ).
Proof.
  intros Hs Hl. destruct c as [v|v|a b]; simpl; intros Hc.
  - apply negb_true_iff in Hc. apply min_linked; assumption.
  - apply negb_true_iff in Hc. apply max_linked; assumption.
  - apply andb_true_iff in Hc as [Ha%negb_true_iff Hb%negb_true_iff].
    rewrite between_unfold, (min_linked this l o a σ Hs Hl Ha).
    rewrite (max_linked this l (Range.set_min a o) b _ Hs (lookup_insert_eq _ _ _) Hb).
    rewrite insert_insert_eq. reflexivity.
Qed.

Lemma range_chain_linked (this : RangeConstruct.t) l cs :
  setter this = linked l →
  forallb (RangeChain.accepted (rules this)) cs = true →
  ∀ o (σ : gmap loc Range.t), σ !! l = Some o →
    RangeChain.chain this cs σ
    = (inr this, <[l := foldl (λ o c, RangeChain.update c o) o cs]> σ).
Proof.
  intros Hs. induction cs as [|c cs IH]; intros Hcs o σ Hl.
  - simpl. rewrite insert_id by assumption. reflexivity.
  - simpl in Hcs. apply andb_true_iff in Hcs as [Hc Hcs].
    rewrite range_chain_cons, (range_apply_linked this l o c σ Hs Hl Hc).
    rewrite (IH Hcs (RangeChain.update c o)) by apply lookup_insert_eq.
    rewrite insert_insert_eq. reflexivity.
Qed.

Lemma foldl_update_min o cs :
  Range.min (foldl (λ o c, RangeChain.update c o) o cs)
  = from_option Some (Range.min o) (last (omap RangeChain.sets_min cs)).
Proof.
  induction cs as [|c cs IH] using rev_ind; [reflexivity|].
  rewrite foldl_app, omap_app. simpl.
  destruct c as [v|v|a b]; simpl.
  - rewrite last_snoc. reflexivity.
  - rewrite app_nil_r. exact IH.
  - rewrite last_snoc. reflexivity.
Qed.

Lemma foldl_update_max o cs :
  Range.max (foldl (λ o c, RangeChain.update c o) o cs)
  = from_option Some (Range.max o) (last (omap RangeChain.sets_max cs)).
Proof.
  induction cs as [|c cs IH] using rev_ind; [reflexivity|].
  rewrite foldl_app, omap_app. simpl.
  destruct c as [v|v|a b]; simpl.
  - rewrite app_nil_r. exact IH.
  - rewrite last_snoc. reflexivity.
  - rewrite last_snoc. reflexivity.
Qed.

(** X10: in a chain that returns, the last assignment wins, bound by bound.
    The constraint object ends with the [min] of the last call that assigns
    [min] ([min] or [between]) and the [max] of the last call that assigns
    [max]; a bound that no call assigns keeps what had been accumulated
    before the chain.  No other object of the store changes. *)
Theorem range_chain_last_assignment_wins (this : RangeConstruct.t) l o
    (cs : list RangeChain.call) (σ : gmap loc Range.t) :
  setter this = linked l → σ !! l = Some o →
  forallb (RangeChain.accepted (rules this)) cs = true →
  ∃ o', RangeChain.chain this cs σ = (inr this, <[l := o']> σ)
        ∧ Range.min o' = from_option Some (Range.min o) (last (omap RangeChain.sets_min cs))
        ∧ Range.max o' = from_option Some (Range.max o) (last (omap RangeChain.sets_max cs)).
Proof.
  intros Hs Hl Hcs. exists (foldl (λ o c, RangeChain.update c o) o cs).
  split; [apply range_chain_linked; assumption|].
  split; [apply foldl_update_min | apply foldl_update_max].
Qed.

Lemma range_chain_last_assignment_wins_witness :
  let this : RangeConstruct.t :=
    Construct_new (linked 1%positive) (Some (Range.mk (Some 10%float) (Some 50%float))) in
  let σ : gmap loc Range.t := {[1%positive := Range.mk None (Some 45%float)]} in
  ∃ o', RangeChain.chain this
          [RangeChain.Min 30%float; RangeChain.Between 20%float 40%float;
           RangeChain.Min 25%float] σ
        = (inr this, <[1%positive := o']> σ)
        ∧ Range.min o' = Some 25%float ∧ Range.max o' = Some 40%float.
Proof.
  intros this σ.
  exact (range_chain_last_assignment_wins this 1%positive (Range.mk None (Some 45%float))
           [RangeChain.Min 30%float; RangeChain.Between 20%float 40%float;
            RangeChain.Min 25%float] σ eq_refl eq_refl eq_refl).
Defined.

(** ** [Module] and the object it keeps *)

(** X11: [Module] does not copy the constraints it is given.  Built from an
    existing object, the module keeps that very object and the store is
    unchanged, so what a builder linked to the object merges afterwards is
    what the module holds.  Built without an argument, the module holds a
    new empty object: it was not in the store before, every existing object
    is left as it was, and a later call on a builder linked to an existing
    object does not reach it. *)
Theorem module_keeps_the_given_object (this : RangeConstruct.t) l o (v : number)
    (σ : gmap loc Range.t) :
  setter this = linked l → σ !! l = Some o → below_min (rules this) v = false →
  (∃ m, Module_.new (Some l) σ = (inr m, σ)
        ∧ constraints_at (Module_.constraints m) (snd (RangeConstruct.min this v σ))
          = Some (Range.set_min v o))
  ∧ (∃ m σ1, Module_.new None σ = (inr m, σ1)
        ∧ σ !! Module_.constraints m = None
        ∧ (∀ l', is_Some (σ !! l') → σ1 !! l' = σ !! l')
        ∧ constraints_at (Module_.constraints m) σ1 = Some ∅
        ∧ constraints_at (Module_.constraints m) (snd (RangeConstruct.min this v σ1))
          = Some ∅).
Proof.
  intros Hs Hl Hv. split.
  - exists (Module_.Build l). split; [reflexivity|].
    rewrite (min_linked this l o v σ Hs Hl Hv). apply lookup_insert_eq.
  - pose proof (is_fresh (dom σ)) as Hfresh. apply not_elem_of_dom in Hfresh.
    assert (Hne : l ≠ fresh (dom σ)) by congruence.
    exists (Module_.Build (fresh (dom σ))), (<[fresh (dom σ) := ∅]> σ).
    split; [reflexivity|]. split; [exact Hfresh|]. split; [|split].
    + intros l' [x Hx]. apply lookup_insert_ne. congruence.
    + apply lookup_insert_eq.
    + rewrite (min_linked this l o v (<[fresh (dom σ) := ∅]> σ) Hs); [|  |exact Hv].
      * simpl. unfold constraints_at.
        rewrite lookup_insert_ne by exact Hne. apply lookup_insert_eq.
      * rewrite lookup_insert_ne by congruence. exact Hl.
Qed.

Lemma module_keeps_the_given_object_witness :
  let this : RangeConstruct.t :=
    Construct_new (linked 1%positive) (Some (Range.mk (Some 10%float) (Some 50%float))) in
  let σ : gmap loc Range.t := {[1%positive := ∅]} in
  ∃ m, Module_.new (Some 1%positive) σ = (inr m, σ)
       ∧ constraints_at (Module_.constraints m) (snd (RangeConstruct.min this 20%float σ))
         = Some (Range.mk (Some 20%float) None).
Proof.
  intros this σ.
  exact (proj1 (module_keeps_the_given_object this 1%positive ∅ 20%float σ
                  eq_refl eq_refl eq_refl)).
Defined.

(** ** The enum [Month] *)

Lemma Month_keys_NoDup : NoDup (Month_entries.*1).
Proof. apply (bool_decide_unpack _). vm_compute. exact I. Qed.

Lemma Month_numbers_NoDup : NoDup (((λ e, (snd e, fst e)) <$> Month_entries).*1).
Proof. apply (bool_decide_unpack _). vm_compute. exact I. Qed.

Lemma Month_value_entry key n : Month_value key = Some n ↔ (key, n) ∈ Month_entries.
Proof.
  unfold Month_value, Month_forward. symmetry.
  apply elem_of_list_to_map, Month_keys_NoDup.
Qed.

Lemma Month_name_entry key n : Month_name n = Some key ↔ (key, n) ∈ Month_entries.
Proof.
  unfold Month_name, Month_reverse.
  rewrite <- (elem_of_list_to_map _ _ _ Month_numbers_NoDup), list_elem_of_fmap.
  split.
  - intros ([k' n'] & [= -> ->] & Hin). exact Hin.
  - intros Hin. exists (key, n). split; [reflexivity|exact Hin].
Qed.

Lemma Lowercase_key_inj m m' :
  Lowercase (Month_key m) = Lowercase (Month_key m') → m = m'.
Proof. destruct m, m'; intros H; try reflexivity; discriminate H. Qed.

Lemma Month_entry_member m i :
  (Month_key m, i) ∈ Month_entries ↔ Month_members !! i = Some m.
Proof.
  unfold Month_entries. rewrite elem_of_lookup_imap. split.
  - intros (i' & m' & [= Hk ->] & Hm). rewrite Hm. f_equal.
    symmetry. apply Lowercase_key_inj. rewrite Hk. reflexivity.
  - intros Hm. exists i, m. split; [reflexivity|exact Hm].
Qed.

(** X12: the enum object of [Month] is a bijection between the twelve keys
    and the numbers 0 to 11.  Reading a key gives a number exactly when the
    reverse mapping sends that number back to the key; the number of a
    member is its position in the declaration, counted from 0; and the
    lowercase keys, the strings that [DateFaker.month] accepts, still name
    one month each. *)
Theorem Month_enum_is_a_bijection :
  (∀ key n, Month_value key = Some n ↔ Month_name n = Some key)
  ∧ (∀ m i, Month_value (Month_key m) = Some i ↔ Month_members !! i = Some m)
  ∧ (∀ key n, Month_value key = Some n → n < 12)
  ∧ (∀ n, n < 12 → ∃ m, Month_name n = Some (Month_key m))
  ∧ (∀ m m', Lowercase (Month_key m) = Lowercase (Month_key m') → m = m').
Proof.
  split; [|split; [|split; [|split]]].
  - intros key n. rewrite Month_value_entry, Month_name_entry. reflexivity.
  - intros m i. rewrite Month_value_entry. apply Month_entry_member.
  - intros key n. rewrite Month_value_entry. unfold Month_entries.
    rewrite elem_of_lookup_imap. intros (i & m & [= -> ->] & Hm).
    apply lookup_lt_Some in Hm. exact Hm.
  - intros n Hn. destruct (lookup_lt_is_Some_2 Month_members n Hn) as [m Hm].
    exists m. apply Month_name_entry, Month_entry_member, Hm.
  - apply Lowercase_key_inj.
Qed.
